(** * update_remotes.py: repository discovery and the confirm-then-migrate workflow

  A shallow embedding of [src/update_remotes.py].

  - Text is [string] (bytes, UTF-8 for the console markers).
  - [pathlib.Path] values are records of an anchor flag and the list of path
    segments.
  - The filesystem is a finite tree of directories and files, together with
    the current working directory.
  - The external tools ([git], [gh]) are an oracle over an abstract world;
    every [subprocess.run] call is recorded, with its result, in a trace. *)

From Stdlib Require Import List String Ascii Bool ZArith Lia Arith.
Import ListNotations.
Local Open Scope string_scope.
Local Open Scope list_scope.

Set Implicit Arguments.
Set Warnings "-register-all".
#[local] Set Warnings "-notation-overridden".

(* ================================================================== *)
(** ** Python strings *)

Module PyStr.

(** [s.endswith(t)] *)
Definition endswith (s t : string) : bool :=
  let n := String.length s in
  let m := String.length t in
  (m <=? n)%nat && (substring (n - m) m s =? t).

(** [s.startswith(t)] *)
Definition startswith (s t : string) : bool := prefix t s.

(** ASCII range of [str.lower]: only [A]..[Z] are changed.  No code point
    outside ASCII lower-cases to [y], [e] or [s], so on UTF-8 text the test
    [s.lower() == 'yes'] agrees with this byte-level version. *)
Definition lower_ascii (c : ascii) : ascii :=
  let n := nat_of_ascii c in
  if ((65 <=? n) && (n <=? 90))%nat then ascii_of_nat (n + 32) else c.

Fixpoint lower (s : string) : string :=
  match s with
  | EmptyString => EmptyString
  | String c r => String (lower_ascii c) (lower r)
  end.

(** The ASCII characters for which [str.isspace] holds: tab, line feed,
    vertical tab, form feed, carriage return, the four separators
    0x1c..0x1f, and space. *)
Definition isspace (c : ascii) : bool :=
  let n := nat_of_ascii c in
  ((9 <=? n) && (n <=? 13) || (28 <=? n) && (n <=? 32))%nat.

Fixpoint lstrip (s : string) : string :=
  match s with
  | EmptyString => EmptyString
  | String c r => if isspace c then lstrip r else s
  end.

(** [rstrip], written by structural recursion: a character is dropped when
    it is white space and everything after it has been dropped. *)
Fixpoint rstrip (s : string) : string :=
  match s with
  | EmptyString => EmptyString
  | String c r =>
      match rstrip r with
      | EmptyString => if isspace c then EmptyString else String c EmptyString
      | r' => String c r'
      end
  end.

(** [s.strip()] *)
Definition strip (s : string) : string := rstrip (lstrip s).

(** [s.split(sep)] for a one-character separator. *)
Fixpoint split (sep : ascii) (s : string) : list string :=
  match s with
  | EmptyString => [EmptyString]
  | String c r =>
      if Ascii.eqb c sep then EmptyString :: split sep r
      else match split sep r with
           | [] => [String c EmptyString]
           | w :: ws => String c w :: ws
           end
  end.

(** [sep.join(l)] *)
Fixpoint join (sep : string) (l : list string) : string :=
  match l with
  | [] => EmptyString
  | [x] => x
  | x :: r => x ++ sep ++ join sep r
  end.

(** Truth value of [None] or a string: [None] and [''] are false. *)
Definition truthy (o : option string) : bool :=
  match o with
  | None => false
  | Some s => negb (s =? "")
  end.

(** The string itself, where the value is known to be one. *)
Definition text (o : option string) : string :=
  match o with
  | None => ""
  | Some s => s
  end.

End PyStr.

(* ================================================================== *)
(** ** pathlib paths (POSIX flavour) *)

Module Pathlib.

(** A pure path: whether it has the root anchor, and its segments.  The
    segments never contain ['.'] or empty names; ['..'] is kept, as pathlib
    keeps it. *)
Record Path : Type := mkPath { anchored : bool; parts : list string }.

(** Segments kept by the parser: empty segments (doubled or trailing
    slashes) and ['.'] are dropped. *)
Definition keep_part (x : string) : bool := negb (x =? "") && negb (x =? ".").

(** [Path(s)].  (A path starting with exactly two slashes keeps the anchor
  ['//'] in pathlib; it names the same root directory and is anchored here.) *)
Definition of_string (s : string) : Path :=
  {| anchored := PyStr.startswith s "/";
     parts := filter keep_part (PyStr.split "/" s) |}.

(** [str(p)] *)
Definition to_string (p : Path) : string :=
  if anchored p then "/" ++ PyStr.join "/" (parts p)
  else match parts p with
       | [] => "."
       | l => PyStr.join "/" l
       end.

(** [p.parent]: the root and ['.'] are their own parents. *)
Definition parent (p : Path) : Path :=
  {| anchored := anchored p; parts := removelast (parts p) |}.

(** [p.name]: the final segment, [''] when there is none. *)
Definition name (p : Path) : string := last (parts p) "".

(** [p / x] for a single plain segment [x]. *)
Definition child (p : Path) (x : string) : Path :=
  {| anchored := anchored p; parts := parts p ++ [x] |}.

(** [p] extended by several plain segments. *)
Definition descend (p : Path) (xs : list string) : Path :=
  {| anchored := anchored p; parts := parts p ++ xs |}.

Definition eqb (p q : Path) : bool :=
  Bool.eqb (anchored p) (anchored q)
  && if list_eq_dec string_dec (parts p) (parts q) then true else false.

End Pathlib.

Import Pathlib.
Notation "p // x" := (Pathlib.child p x) (at level 40, left associativity).

(* ================================================================== *)
(** ** The filesystem *)

Module FS.

(** A directory lists its entries in the order in which the operating system
    enumerates them.  Symbolic links are outside the model. *)
Inductive node : Type :=
| File : node
| Dir : list (string * node) -> node.

Record filesystem : Type := mkFS { fs_root : node; fs_cwd : list string }.

Definition is_dir_node (n : node) : bool :=
  match n with Dir _ => true | File => false end.

Fixpoint assoc (x : string) (es : list (string * node)) : option node :=
  match es with
  | [] => None
  | (y, c) :: r => if x =? y then Some c else assoc x r
  end.

(** The node at an absolute location without ['..'] segments. *)
Fixpoint lookup (n : node) (loc : list string) : option node :=
  match loc with
  | [] => Some n
  | x :: r =>
      match n with
      | Dir es => match assoc x es with
                  | Some c => lookup c r
                  | None => None
                  end
      | File => None
      end
  end.

(** Resolution of the segments [segs] from the location [loc]: each step
    needs the current location to be a directory; ['..'] moves to the parent
    (the root is its own parent). *)
Fixpoint canon (root : node) (loc segs : list string) : option (list string) :=
  match segs with
  | [] => Some loc
  | x :: r =>
      match lookup root loc with
      | Some (Dir es) =>
          if x =? ".." then canon root (removelast loc) r
          else match assoc x es with
               | Some _ => canon root (loc ++ [x]) r
               | None => None
               end
      | _ => None
      end
  end.

Definition start (fs : filesystem) (p : Path) : list string :=
  if anchored p then [] else fs_cwd fs.

(** [os.stat(p)], as far as the program looks at it. *)
Definition stat (fs : filesystem) (p : Path) : option node :=
  match canon (fs_root fs) (start fs p) (parts p) with
  | Some loc => lookup (fs_root fs) loc
  | None => None
  end.

(** [p.exists()] *)
Definition exists_ (fs : filesystem) (p : Path) : bool :=
  match stat fs p with Some _ => true | None => false end.

(** [p.is_dir()] *)
Definition is_dir (fs : filesystem) (p : Path) : bool :=
  match stat fs p with Some (Dir _) => true | _ => false end.

(** [p.is_file()] *)
Definition is_file (fs : filesystem) (p : Path) : bool :=
  match stat fs p with Some File => true | _ => false end.

Definition dir_names (es : list (string * node)) : list string :=
  map fst (filter (fun e => is_dir_node (snd e)) es).

Definition file_names (es : list (string * node)) : list string :=
  map fst (filter (fun e => negb (is_dir_node (snd e))) es).

Definition mem (x : string) (l : list string) : bool := existsb (String.eqb x) l.

(** The descent of [os.walk] into the subdirectories of one directory: the
    entries that are directories and whose name is kept, in enumeration
    order. *)
Fixpoint each_dir (S : Type) (walk : string -> node -> S -> S)
    (keep : string -> bool) (l : list (string * node)) (s : S) {struct l} : S :=
  match l with
  | [] => s
  | (x, c) :: r =>
      if is_dir_node c && keep x then each_dir walk keep r (walk x c s)
      else each_dir walk keep r s
  end.

(** [os.walk(top)], top-down, driven by the body of the caller's [for] loop:
    [visit root dirs files s] is one iteration; it returns the loop's state
    and the list [dirs] as the iteration left it.  The walk then descends
    into the subdirectories still listed.  The loop of this program only
    removes names from [dirs], so the directories visited are the entries, in
    enumeration order, whose name is still listed.  A [top] that is not a
    directory yields nothing. *)
Fixpoint os_walk (S : Type)
    (visit : Path -> list string -> list string -> S -> S * list string)
    (top : Path) (n : node) (s : S) {struct n} : S :=
  match n with
  | File => s
  | Dir es =>
      let '(s1, dirs') := visit top (dir_names es) (file_names es) s in
      each_dir (fun x c s' => os_walk visit (top // x) c s')
               (fun x => mem x dirs') es s1
  end.

(** A walk that only adds to the list it is given. *)
Definition accumulates (walk : node -> list Path -> list Path) (n : node) : Prop :=
  forall acc, walk n acc = acc ++ walk n [].

End FS.

Import FS.

(* ================================================================== *)
(** ** Repository discovery *)

(** [is_git_repo(path)]: [(path / '.git').exists()] *)
Definition is_git_repo (fs : filesystem) (path : Path) : bool :=
  exists_ fs (path // ".git").

(** The argument of [find_repositories] is a string or, as [main] passes it,
    a [Path]; the function applies both [str] and [Path] to it. *)
Inductive target : Type :=
| OfStr : string -> target
| OfPath : Path -> target.

Definition str (t : target) : string :=
  match t with OfStr s => s | OfPath p => to_string p end.

Definition to_path (t : target) : Path :=
  match t with OfStr s => of_string s | OfPath p => p end.

(** One iteration of the loop over [os.walk(search_dir)]. *)
Definition visit (fs : filesystem) (root : Path) (dirs files : list string)
    (repos : list Path) : list Path * list string :=
  if mem ".git" dirs then
    let repo_path := root in
    let repos := if is_git_repo fs repo_path then repos ++ [repo_path] else repos in
    (repos, filter (fun d => negb (d =? ".git")) dirs)
  else (repos, dirs).

(** The search of a root directory. *)
Definition walk_repos (fs : filesystem) (search_dir : Path) : list Path :=
  match stat fs search_dir with
  | Some n => os_walk (visit fs) search_dir n []
  | None => []
  end.

(** The first branch of [find_repositories] is taken when this holds. *)
Definition is_prefix_target (fs : filesystem) (t : target) : bool :=
  PyStr.endswith (str t) "/" || (exists_ fs (to_path t) && is_dir fs (to_path t)).

Definition find_repositories (fs : filesystem) (t : target) : list Path :=
  let target_path := to_path t in
  if is_prefix_target fs t then
    let search_dir :=
      if exists_ fs target_path then target_path else parent target_path in
    walk_repos fs search_dir
  else
    if exists_ fs target_path && is_git_repo fs target_path then [target_path]
    else [].

(* ================================================================== *)
(** ** External commands *)

(** A [subprocess.run] call: the argument vector and the [cwd=] directory. *)
Record command : Type := mkCmd { argv : list string; cwd : option Path }.

(** The completed process.  With [check=True], a return code other than 0
    raises [CalledProcessError]; the program catches exactly that.  The
    executables are taken to be installed, so that each call does complete. *)
Record completed : Type := mkCompleted { returncode : Z; stdout : string }.

Definition succeeded (r : completed) : bool := (returncode r =? 0)%Z.

Definition git_remote_get_url (path : Path) : command :=
  mkCmd ["git"; "remote"; "get-url"; "origin"] (Some path).

Definition git_remote_set_url (path : Path) (url : string) : command :=
  mkCmd ["git"; "remote"; "set-url"; "origin"; url] (Some path).

Definition git_push_all (path : Path) : command :=
  mkCmd ["git"; "push"; "--all"; "origin"] (Some path).

Definition gh_repo_view (name : string) : command :=
  mkCmd ["gh"; "repo"; "view"; name] None.

Definition gh_repo_create (name description : string) : command :=
  mkCmd ["gh"; "repo"; "create"; name; "--private"; "--description"; description] None.

(** The three kinds of call that change something: creation of a hosted
    repository, repointing of a remote, and pushing. *)
Definition is_create (c : command) : bool :=
  match argv c with
  | a :: b :: d :: _ => (a =? "gh") && (b =? "repo") && (d =? "create")
  | _ => false
  end.

Definition is_set_url (c : command) : bool :=
  match argv c with
  | a :: b :: d :: _ => (a =? "git") && (b =? "remote") && (d =? "set-url")
  | _ => false
  end.

Definition is_push (c : command) : bool :=
  match argv c with
  | a :: b :: _ => (a =? "git") && (b =? "push")
  | _ => false
  end.

Definition is_view (c : command) : bool :=
  match argv c with
  | a :: b :: d :: _ => (a =? "gh") && (b =? "repo") && (d =? "view")
  | _ => false
  end.

Definition mutating (c : command) : bool := is_create c || is_set_url c || is_push c.

(** The target name of a repository: the fixed prefix and the last segment
    of its path. *)
Definition target_name (path : Path) : string := "migration25-" ++ name path.

(** The calls that are about the repository at [path]: the [git] calls run
    inside it, and the [gh] calls on its target name. *)
Definition concerns (path : Path) (c : command) : bool :=
  match cwd c with
  | Some p => Pathlib.eqb p path
  | None => mem (target_name path) (argv c)
  end.

Definition nl : string := String (ascii_of_nat 10) "".

Fixpoint repeat_string (s : string) (n : nat) : string :=
  match n with
  | O => ""
  | S k => s ++ repeat_string s k
  end.

(** How a run of the program ends: [sys.exit(code)] or falling off the end
    (code 0), or an exception nobody catches. *)
Inductive outcome : Type :=
| Exit : Z -> outcome
| Uncaught : string -> outcome.

(* ================================================================== *)
(** ** The workflow *)

Module Workflow.

Section WithWorld.

(** The world outside the process: the filesystem it shows, and what each
    command does to it and returns. *)
Variable World : Type.
Variable world_fs : World -> filesystem.
Variable run : command -> World -> completed * World.

(** [str(e)] for the [CalledProcessError] of a call. *)
Variable str_error : command -> completed -> string.

(** What the program threads: the world, the calls made so far with their
    results, and the lines printed so far. *)
Record state : Type := mkState {
  world : World;
  trace : list (command * completed);
  out : list string
}.

Definition M (A : Type) : Type := state -> A * state.

Definition ret {A} (a : A) : M A := fun st => (a, st).

Definition bind {A B} (m : M A) (k : A -> M B) : M B :=
  fun st => let (a, st') := m st in k a st'.

Notation "x <- m ;; k" := (bind m (fun x => k))
  (at level 61, m at next level, right associativity).
Notation "m ;; k" := (bind m (fun _ => k))
  (at level 61, right associativity).

Definition print (line : string) : M unit :=
  fun st => (tt, mkState (world st) (trace st) (out st ++ [line])).

Definition read_fs : M filesystem := fun st => (world_fs (world st), st).

(** [subprocess.run(argv, cwd=..., check=True)], up to the check. *)
Definition subprocess_run (c : command) : M completed :=
  fun st =>
    let (r, w) := run c (world st) in
    (r, mkState w (trace st ++ [(c, r)]) (out st)).

Definition init (w : World) : state := mkState w [] [].

(** [get_current_remote(path)] *)
Definition get_current_remote (path : Path) : M (option string) :=
  result <- subprocess_run (git_remote_get_url path) ;;
  if succeeded result then ret (Some (PyStr.strip (stdout result)))
  else ret None.

(** [create_github_repo(name, description)] *)
Definition create_github_repo (name description : string) : M (option string) :=
  let prefixed_name := ("migration25-" ++ name)%string in
  let c := gh_repo_create prefixed_name description in
  result <- subprocess_run c ;;
  if succeeded result then
    let repo_url := PyStr.strip (stdout result) in
    print ("✓ Created new repository: " ++ repo_url) ;;
    ret (Some repo_url)
  else
    print ("✗ Failed to create repository " ++ prefixed_name ++ ": "
           ++ str_error c result) ;;
    ret None.

(** [update_remote(path, new_remote_url)] *)
Definition update_remote (path : Path) (new_remote_url : string) : M bool :=
  let c1 := git_remote_set_url path new_remote_url in
  r1 <- subprocess_run c1 ;;
  if succeeded r1 then
    print ("✓ Updated remote for " ++ to_string path) ;;
    let c2 := git_push_all path in
    r2 <- subprocess_run c2 ;;
    if succeeded r2 then
      print "✓ Pushed all branches to new remote" ;;
      ret true
    else
      print ("✗ Failed to update/push to remote for " ++ to_string path ++ ": "
             ++ str_error c2 r2) ;;
      ret false
  else
    print ("✗ Failed to update/push to remote for " ++ to_string path ++ ": "
           ++ str_error c1 r1) ;;
    ret false.

(** [repo_exists(name)] *)
Definition repo_exists (name : string) : M bool :=
  r <- subprocess_run (gh_repo_view name) ;;
  ret (succeeded r).

(** [process_repository(directory)] *)
Definition process_repository (directory : Path) : M bool :=
  print (nl ++ "Processing " ++ to_string directory ++ "...") ;;
  fs <- read_fs ;;
  if negb (is_git_repo fs directory) then
    print ("✗ " ++ to_string directory ++ " is not a git repository") ;;
    ret false
  else
    current_remote <- get_current_remote directory ;;
    if PyStr.truthy current_remote then
      print ("Current remote: " ++ PyStr.text current_remote) ;;
      let new_name := ("migration25-" ++ name directory)%string in
      exists_already <- repo_exists new_name ;;
      if exists_already then
        print ("✓ Repository " ++ new_name ++ " already exists, skipping...") ;;
        ret true
      else
        new_repo_url <- create_github_repo (name directory) "" ;;
        if PyStr.truthy new_repo_url then
          update_remote directory (PyStr.text new_repo_url)
        else
          print "✗ Skipping remote update due to repository creation failure" ;;
          ret false
    else
      print ("✗ No remote found for " ++ to_string directory) ;;
      ret false.

Definition rule : string := repeat_string "-" 80.

(** One iteration of the loop of [list_repositories]. *)
Definition list_repository (repo : Path) : M unit :=
  fs <- read_fs ;;
  if is_git_repo fs repo then
    remote <- get_current_remote repo ;;
    let new_name := ("migration25-" ++ name repo)%string in
    exists_already <- repo_exists new_name ;;
    print ("Repository: " ++ name repo) ;;
    print ("Path: " ++ to_string repo) ;;
    print ("Current remote: "
           ++ (if PyStr.truthy remote then PyStr.text remote else "No remote")) ;;
    print ("New name will be: " ++ new_name) ;;
    print ("Status: " ++ (if exists_already then "Already exists on GitHub"
                          else "Will be created")) ;;
    print rule
  else
    print ("Repository: " ++ name repo) ;;
    print ("Path: " ++ to_string repo) ;;
    print "Status: Not a git repository" ;;
    print rule.

Fixpoint for_each (body : Path -> M unit) (l : list Path) : M unit :=
  match l with
  | [] => ret tt
  | x :: r => body x ;; for_each body r
  end.

(** [list_repositories(repos)] *)
Definition list_repositories (repos : list Path) : M unit :=
  print (nl ++ "Found repositories:") ;;
  print rule ;;
  for_each list_repository repos.

(** The last loop of [main]: the result of each repository is dropped. *)
Definition migrate_all (repositories : list Path) : M unit :=
  for_each (fun directory => process_repository directory ;; ret tt) repositories.

(** The text that [input] writes before it reads. *)
Definition prompt : string := nl ++ "Do you want to proceed with the migration? (yes/no): ".

(** [main()], for [sys.argv = args] and the line [input] reads: [None] is an
    exhausted standard input, on which [input] raises [EOFError]. *)
Definition main (args : list string) (stdin : option string) : M outcome :=
  if negb (List.length args =? 2)%nat then
    print "Usage: python update_remotes.py <directory_or_prefix>" ;;
    print "Example: python update_remotes.py /path/to/repo" ;;
    print "Example: python update_remotes.py my-project" ;;
    ret (Exit 1)
  else
    let target := of_string (nth 1 args "") in
    fs <- read_fs ;;
    let repositories := find_repositories fs (OfPath target) in
    match repositories with
    | [] =>
        print ("No repositories found matching '" ++ to_string target ++ "'") ;;
        ret (Exit 1)
    | _ :: _ =>
        list_repositories repositories ;;
        print prompt ;;
        match stdin with
        | None => ret (Uncaught "EOFError")
        | Some response =>
            if negb (PyStr.lower response =? "yes") then
              print "Migration cancelled." ;;
              ret (Exit 0)
            else
              migrate_all repositories ;;
              ret (Exit 0)
        end
    end.

(** The calls of a run, in order, and those of them that change something. *)
Definition calls (st : state) : list command := map fst (trace st).

Definition side_effects (st : state) : list command := filter mutating (calls st).

(** The calls made from the state [st] to the later state [st'] of one run,
    with their results. *)
Definition since (st st' : state) : list (command * completed) :=
  skipn (List.length (trace st)) (trace st').

(** A computation adds to the trace a segment for which [P] holds. *)
Definition traces (P : list (command * completed) -> Prop) (A : Type) (m : M A) : Prop :=
  forall st, exists seg, trace (snd (m st)) = trace st ++ seg /\ P seg.

End WithWorld.

End Workflow.

Import Workflow.

(** No call of the segment changes anything. *)
Definition quiet (seg : list (command * completed)) : Prop :=
  Forall (fun e => mutating (fst e) = false) seg.

(** If all of the segment's existence lookups of a name succeeded, nothing
    changes for repositories with this target name. *)
Definition target_exists (path : Path) (seg : list (command * completed)) : Prop :=
  forall r, In (gh_repo_view (target_name path), r) seg -> succeeded r = true.

Definition untouched (path : Path) (seg : list (command * completed)) : Prop :=
  Forall (fun e => concerns path (fst e) = true -> mutating (fst e) = false) seg.

Definition skipped_if_existing (d : Path) (seg : list (command * completed)) : Prop :=
  target_exists d seg -> untouched d seg.

(* ================================================================== *)
(** ** Well-formed trees *)

Fixpoint nodupb (l : list string) : bool :=
  match l with
  | [] => true
  | x :: r => negb (mem x r) && nodupb r
  end.

Fixpoint has_char (c : ascii) (s : string) : bool :=
  match s with
  | EmptyString => false
  | String d r => Ascii.eqb c d || has_char c r
  end.

(** A file name: not empty, not ['.'] or ['..'], without a slash. *)
Definition valid_name (x : string) : bool :=
  negb (x =? "") && negb (x =? ".") && negb (x =? "..") && negb (has_char "/" x).

(** Every directory of the tree has distinct, valid entry names. *)
Fixpoint wf_node (n : node) : bool :=
  match n with
  | File => true
  | Dir es =>
      nodupb (map fst es) && forallb valid_name (map fst es)
      && (fix all (l : list (string * node)) : bool :=
            match l with
            | [] => true
            | (_, c) :: r => wf_node c && all r
            end) es
  end.

Definition wf_fs (fs : filesystem) : Prop := wf_node (fs_root fs) = true.

(** [p] is [q] with at least one more segment removed. *)
Definition is_proper_ancestor (p q : Path) : bool :=
  Bool.eqb (anchored p) (anchored q)
  && (List.length (parts p) <? List.length (parts q))%nat
  && if list_eq_dec string_dec (firstn (List.length (parts p)) (parts q)) (parts p)
     then true else false.

(* ================================================================== *)
(** ** A simulated world

    A small, executable instance of the world: the tree, the [origin] URL of
    each repository that has one, the names that exist on the hosting
    provider, and the commands a test makes fail. *)

Module Sim.

Record world : Type := mkWorld {
  files : filesystem;
  remotes : list (Path * string);
  hosted : list string;
  failing : list (list string)
}.

Fixpoint remote_of (p : Path) (l : list (Path * string)) : option string :=
  match l with
  | [] => None
  | (q, u) :: r => if Pathlib.eqb p q then Some u else remote_of p r
  end.

Fixpoint set_remote (p : Path) (url : string) (l : list (Path * string))
  : list (Path * string) :=
  match l with
  | [] => []
  | (q, u) :: r =>
      if Pathlib.eqb p q then (q, url) :: r else (q, u) :: set_remote p url r
  end.

Definition fails (c : command) (w : world) : bool :=
  existsb (fun a => if list_eq_dec string_dec a (argv c) then true else false)
          (failing w).

Definition done (out : string) (w : world) : completed * world :=
  (mkCompleted 0 out, w).

Definition failed (code : Z) (w : world) : completed * world :=
  (mkCompleted code "", w).

Definition exec (c : command) (w : world) : completed * world :=
  if fails c w then failed 1 w
  else
    match argv c, cwd c with
    | ["git"; "remote"; "get-url"; "origin"], Some p =>
        if negb (is_git_repo (files w) p) then failed 128 w
        else match remote_of p (remotes w) with
             | Some u => done (u ++ nl) w
             | None => failed 2 w
             end
    | ["git"; "remote"; "set-url"; "origin"; url], Some p =>
        match remote_of p (remotes w) with
        | Some _ =>
            done "" (mkWorld (files w) (set_remote p url (remotes w))
                             (hosted w) (failing w))
        | None => failed 2 w
        end
    | ["git"; "push"; "--all"; "origin"], Some p =>
        match remote_of p (remotes w) with
        | Some _ => done "" w
        | None => failed 128 w
        end
    | ["gh"; "repo"; "view"; n], None =>
        if mem n (hosted w) then done n w else failed 1 w
    | ["gh"; "repo"; "create"; n; "--private"; "--description"; _], None =>
        if mem n (hosted w) then failed 1 w
        else done ("https://github.com/me/" ++ n ++ nl)
                  (mkWorld (files w) (remotes w) (n :: hosted w) (failing w))
    | _, _ => failed 127 w
    end.

Definition error_text (c : command) (r : completed) : string :=
  "Command '" ++ PyStr.join " " (argv c) ++ "' returned non-zero exit status.".

End Sim.

(** *** Sample trees and worlds *)

Definition git_dir : node := Dir [("HEAD", File); ("objects", Dir [])].

(** [/w/A] is a repository, [/w/B] is not. *)
Definition fs_two : filesystem :=
  mkFS (Dir [("w", Dir [("A", Dir [(".git", git_dir); ("README", File)]);
                        ("B", Dir [("notes.txt", File)])])])
       ["w"].

(** [/w/app] is a repository with a vendored repository below it. *)
Definition fs_nested : filesystem :=
  mkFS (Dir [("w", Dir [("app", Dir [(".git", git_dir);
                                     ("vendor", Dir [("lib", Dir [(".git", git_dir)])])])])])
       ["w"].

(** [/w/wt] is a linked work tree: its [.git] is a file. *)
Definition fs_worktree : filesystem :=
  mkFS (Dir [("w", Dir [("wt", Dir [(".git", File); ("main.c", File)]);
                        ("A", Dir [(".git", git_dir)])])])
       ["w"].

(** Two repositories, [/w/A] with a remote and [/w/C] without. *)
Definition fs_pair : filesystem :=
  mkFS (Dir [("w", Dir [("A", Dir [(".git", git_dir)]);
                        ("C", Dir [(".git", git_dir)])])])
       ["w"].

Definition repo_A : Path := of_string "/w/A".
Definition repo_C : Path := of_string "/w/C".

Definition world_fresh : Sim.world :=
  Sim.mkWorld fs_pair [(repo_A, "git@old:foo/A.git")] [] [].

Definition world_migrated : Sim.world :=
  Sim.mkWorld fs_pair [(repo_A, "https://github.com/me/migration25-A")]
              ["migration25-A"] [].

(** The provider rejects the creation of [migration25-A]. *)
Definition world_rejecting : Sim.world :=
  Sim.mkWorld fs_pair [(repo_A, "git@old:foo/A.git"); (repo_C, "git@old:foo/C.git")] []
              [argv (gh_repo_create "migration25-A" "")].

(** Repointing the remote of [/w/A] fails. *)
Definition world_readonly : Sim.world :=
  Sim.mkWorld fs_pair [(repo_A, "git@old:foo/A.git")] []
              [argv (git_remote_set_url repo_A "https://github.com/me/migration25-A")].

(** The push from [/w/A] fails. *)
Definition world_unreachable : Sim.world :=
  Sim.mkWorld fs_pair [(repo_A, "git@old:foo/A.git")] []
              [argv (git_push_all repo_A)].

(** A provider whose creation succeeds without printing a URL; the world is
    the tree alone. *)
Definition silent_run (c : command) (fs : filesystem) : completed * filesystem :=
  if is_view c then (mkCompleted 1 "", fs)
  else if is_create c then (mkCompleted 0 ("  " ++ nl), fs)
  else (mkCompleted 0 ("git@old:foo/A.git" ++ nl), fs).

Definition prog_args : list string := ["update_remotes.py"; "/w"].

Definition sim_main (args : list string) (stdin : option string) (w : Sim.world) :=
  main Sim.files Sim.exec Sim.error_text args stdin (init w).

Definition sim_process (d : Path) (w : Sim.world) :=
  process_repository Sim.files Sim.exec Sim.error_text d (init w).

(* ================================================================== *)
(** * Properties *)

Unset Implicit Arguments.

(** ** The filesystem *)

Section NodeInduction.

Variable P : node -> Prop.
Hypothesis P_file : P File.
Hypothesis P_dir : forall es, Forall (fun e => P (snd e)) es -> P (Dir es).

(** Induction on trees, with the hypothesis for every entry of a directory. *)
Lemma node_induction (n : node) : P n.
Proof.
  revert n. fix IH 1. intros [|es].
  - exact P_file.
  - apply P_dir. induction es as [|e r IHr]; constructor; [apply IH | exact IHr].
Qed.

End NodeInduction.

Lemma mem_In (x : string) (l : list string) : mem x l = true <-> In x l.
Proof.
  unfold mem. rewrite existsb_exists. split.
  - intros [y [Hy He]]. apply String.eqb_eq in He. now subst.
  - intros H. exists x. split; [assumption | apply String.eqb_refl].
Qed.

Lemma mem_false (x : string) (l : list string) : mem x l = false <-> ~ In x l.
Proof.
  rewrite <- mem_In. destruct (mem x l); split; intro H; try reflexivity;
    try discriminate; try (exfalso; now apply H); congruence.
Qed.

Lemma assoc_In (x : string) (es : list (string * node)) (c : node) :
  assoc x es = Some c -> In (x, c) es.
Proof.
  induction es as [|[y d] r IH]; simpl; [discriminate|].
  destruct (x =? y) eqn:E.
  - apply String.eqb_eq in E. intros [= ->]. subst. now left.
  - intros H. right. now apply IH.
Qed.

(** In a directory without duplicate names, an entry is found by its name. *)
Lemma assoc_nodup (x : string) (es : list (string * node)) (c : node) :
  nodupb (map fst es) = true -> In (x, c) es -> assoc x es = Some c.
Proof.
  induction es as [|[y d] r IH]; simpl; [contradiction|].
  intros Hnd [Hin | Hin].
  - injection Hin as -> ->. now rewrite String.eqb_refl.
  - apply andb_prop in Hnd as [Hy Hr].
    destruct (x =? y) eqn:E.
    + apply String.eqb_eq in E. subst y. exfalso.
      apply negb_true_iff in Hy. apply mem_false in Hy. apply Hy.
      change x with (fst (x, c)). now apply in_map.
    + now apply IH.
Qed.

Lemma lookup_snoc (n : node) (loc : list string) (x : string) :
  lookup n (loc ++ [x]) =
  match lookup n loc with
  | Some (Dir es) => assoc x es
  | _ => None
  end.
Proof.
  revert n. induction loc as [|y r IH]; intros n; simpl.
  - destruct n as [|es]; [reflexivity|]. now destruct (assoc x es).
  - destruct n as [|es]; [reflexivity|]. destruct (assoc y es); [apply IH | reflexivity].
Qed.

Lemma canon_snoc (root : node) (segs loc : list string) (x : string) :
  canon root loc (segs ++ [x]) =
  match canon root loc segs with
  | Some l =>
      match lookup root l with
      | Some (Dir es) =>
          if x =? ".." then Some (removelast l)
          else match assoc x es with
               | Some _ => Some (l ++ [x])
               | None => None
               end
      | _ => None
      end
  | None => None
  end.
Proof.
  revert loc. induction segs as [|y r IH]; intros loc; simpl.
  - destruct (lookup root loc) as [[|es]|]; reflexivity.
  - destruct (lookup root loc) as [[|es]|]; try reflexivity.
    destruct (y =? ".."); [apply IH|].
    destruct (assoc y es); [apply IH | reflexivity].
Qed.

(** What [stat] sees one plain segment below a path. *)
Lemma stat_child (fs : filesystem) (p : Path) (x : string) :
  x <> ".." ->
  stat fs (p // x) =
  match stat fs p with
  | Some (Dir es) => assoc x es
  | _ => None
  end.
Proof.
  intros Hx. unfold stat, start. simpl. rewrite canon_snoc.
  destruct (canon (fs_root fs) (if anchored p then [] else fs_cwd fs) (parts p))
    as [l|]; [|reflexivity].
  destruct (lookup (fs_root fs) l) as [[|es]|] eqn:El; try reflexivity.
  apply String.eqb_neq in Hx. rewrite Hx.
  destruct (assoc x es) eqn:Ea; [|reflexivity].
  rewrite lookup_snoc, El. exact Ea.
Qed.

(** Below something that is not a directory there is no [.git]. *)
Lemma is_git_repo_needs_dir (fs : filesystem) (p : Path) :
  is_dir fs p = false -> is_git_repo fs p = false.
Proof.
  unfold is_dir, is_git_repo, exists_. intros H.
  rewrite stat_child by discriminate.
  destruct (stat fs p) as [[|es]|]; try reflexivity. discriminate.
Qed.

Lemma wf_dir (es : list (string * node)) :
  wf_node (Dir es) = true ->
  nodupb (map fst es) = true
  /\ forallb valid_name (map fst es) = true
  /\ forall x c, In (x, c) es -> wf_node c = true.
Proof.
  simpl. intros H. apply andb_prop in H as [H Hall]. apply andb_prop in H as [Hnd Hv].
  repeat split; try assumption.
  clear Hnd Hv. induction es as [|[y d] r IH]; intros x c Hin; [contradiction|].
  apply andb_prop in Hall as [Hd Hr]. destruct Hin as [Hin | Hin].
  - now injection Hin as -> ->.
  - now apply (IH Hr x c).
Qed.

Lemma wf_lookup (loc : list string) (n m : node) :
  wf_node n = true -> lookup n loc = Some m -> wf_node m = true.
Proof.
  revert n. induction loc as [|x r IH]; intros n Hwf; simpl.
  - now intros [= <-].
  - destruct n as [|es]; [discriminate|].
    destruct (assoc x es) as [c|] eqn:Ea; [|discriminate].
    apply IH. apply wf_dir in Hwf as (_ & _ & Hc).
    apply (Hc x). now apply assoc_In.
Qed.

Lemma wf_stat (fs : filesystem) (p : Path) (n : node) :
  wf_fs fs -> stat fs p = Some n -> wf_node n = true.
Proof.
  unfold wf_fs, stat. intros Hwf.
  destruct (canon (fs_root fs) (start fs p) (parts p)) as [l|]; [|discriminate].
  now apply wf_lookup.
Qed.

Lemma valid_name_not_dotdot (x : string) : valid_name x = true -> x <> "..".
Proof. intros H ->. discriminate. Qed.

Lemma dir_names_In (x : string) (es : list (string * node)) :
  In x (dir_names es) <-> exists es', In (x, Dir es') es.
Proof.
  unfold dir_names. rewrite in_map_iff. split.
  - intros [[y c] [Hy Hin]]. simpl in Hy. subst y.
    apply filter_In in Hin as [Hin Hd]. destruct c as [|es']; [discriminate|].
    now exists es'.
  - intros [es' Hin]. exists (x, Dir es'). split; [reflexivity|].
    apply filter_In. now split.
Qed.

Lemma descend_nil (p : Path) : descend p [] = p.
Proof. destruct p as [a l]. unfold descend. simpl. now rewrite app_nil_r. Qed.

Lemma descend_cons (p : Path) (x : string) (xs : list string) :
  descend p (x :: xs) = descend (p // x) xs.
Proof. unfold descend, child. simpl. now rewrite <- app_assoc. Qed.

Lemma descend_snoc (p : Path) (x : string) (xs : list string) :
  descend p (xs ++ [x]) = descend p xs // x.
Proof. unfold descend, child. simpl. now rewrite app_assoc. Qed.

(** A path that exists below [p], through plain segments, needs [p] to be
    a directory. *)
Lemma stat_descend_dir (fs : filesystem) (p : Path) (xs : list string) :
  ~ In ".." xs -> xs <> [] -> exists_ fs (descend p xs) = true -> is_dir fs p = true.
Proof.
  induction xs as [|x r IH] using rev_ind; intros Hdd Hne Hex; [congruence|].
  rewrite descend_snoc in Hex. unfold exists_ in Hex.
  rewrite stat_child in Hex by (intros ->; apply Hdd, in_or_app; right; now left).
  destruct (stat fs (descend p r)) as [[|es]|] eqn:Es; try discriminate.
  destruct r as [|y r'].
  - rewrite descend_nil in Es. unfold is_dir. now rewrite Es.
  - apply IH.
    + intros H. apply Hdd, in_or_app. now left.
    + discriminate.
    + unfold exists_. now rewrite Es.
Qed.

(** ** The walk *)

Section Walk.

Variable fs : filesystem.

Lemma each_dir_app (walk : string -> node -> list Path -> list Path)
    (keep : string -> bool) (l : list (string * node)) :
  Forall (fun e => accumulates (walk (fst e)) (snd e)) l ->
  forall acc, each_dir walk keep l acc = acc ++ each_dir walk keep l [].
Proof.
  induction 1 as [|[x c] r Hx Hr IH]; intros acc; simpl.
  - now rewrite app_nil_r.
  - destruct (is_dir_node c && keep x).
    + rewrite IH. rewrite (IH (walk x c [])). simpl in Hx. rewrite (Hx acc).
      now rewrite app_assoc.
    + apply IH.
Qed.

Lemma each_dir_In (walk : string -> node -> list Path -> list Path)
    (keep : string -> bool) (l : list (string * node)) (p : Path) :
  Forall (fun e => accumulates (walk (fst e)) (snd e)) l ->
  In p (each_dir walk keep l []) <->
  exists x c, In (x, c) l /\ is_dir_node c = true /\ keep x = true
              /\ In p (walk x c []).
Proof.
  induction 1 as [|[x c] r Hx Hr IH]; simpl.
  - split; [contradiction | intros (x & c & [] & _)].
  - destruct (is_dir_node c && keep x) eqn:E.
    + rewrite each_dir_app by assumption. rewrite in_app_iff, IH.
      apply andb_prop in E as [Ed Ek]. split.
      * intros [Hp | (y & d & Hin & Hd & Hk & Hp)].
        -- exists x, c. repeat split; auto.
        -- exists y, d. repeat split; auto.
      * intros (y & d & [Heq | Hin] & Hd & Hk & Hp).
        -- injection Heq as <- <-. now left.
        -- right. exists y, d. repeat split; auto.
    + rewrite IH. split.
      * intros (y & d & Hin & Hd & Hk & Hp). exists y, d. repeat split; auto.
      * intros (y & d & [Heq | Hin] & Hd & Hk & Hp).
        -- injection Heq as <- <-. rewrite Hd, Hk in E. discriminate.
        -- exists y, d. repeat split; auto.
Qed.

Lemma os_walk_accumulates (n : node) :
  forall top, accumulates (os_walk (visit fs) top) n.
Proof.
  induction n as [|es IH] using node_induction; intros top acc; simpl.
  - now rewrite app_nil_r.
  - assert (Hall : Forall (fun e => accumulates
                                      ((fun x c s' => os_walk (visit fs) (top // x) c s') (fst e))
                                      (snd e)) es).
    { rewrite Forall_forall in *. intros e He. apply IH. exact He. }
    unfold visit. destruct (mem ".git" (dir_names es)).
    + destruct (is_git_repo fs top).
      * rewrite each_dir_app by exact Hall.
        rewrite (each_dir_app _ _ _ Hall ([] ++ [top])).
        now rewrite app_assoc.
      * apply each_dir_app, Hall.
    + apply each_dir_app, Hall.
Qed.

(** The paths found from a directory: the directory itself when [.git] is
    among its subdirectories, and whatever is found from each subdirectory
    other than [.git]. *)
Lemma os_walk_In (top : Path) (es : list (string * node)) (p : Path) :
  In p (os_walk (visit fs) top (Dir es) []) <->
  (p = top /\ mem ".git" (dir_names es) = true /\ is_git_repo fs top = true)
  \/ exists x es', In (x, Dir es') es /\ x <> ".git"
                   /\ In p (os_walk (visit fs) (top // x) (Dir es') []).
Proof.
  assert (Hall : Forall (fun e => accumulates
                                    ((fun x c s' => os_walk (visit fs) (top // x) c s') (fst e))
                                    (snd e)) es).
  { rewrite Forall_forall. intros e _. apply os_walk_accumulates. }
  simpl. unfold visit.
  assert (Hkeep : forall x es' l,
             In (x, Dir es') es ->
             (mem ".git" (dir_names es) = true /\ l = filter (fun d => negb (d =? ".git")) (dir_names es)
              \/ mem ".git" (dir_names es) = false /\ l = dir_names es) ->
             (mem x l = true <-> x <> ".git")).
  { intros x es' l Hin Hl.
    assert (Hx : In x (dir_names es)) by (apply dir_names_In; now exists es').
    destruct Hl as [[_ ->] | [Hno ->]].
    - rewrite mem_In, filter_In, negb_true_iff, String.eqb_neq. tauto.
    - rewrite mem_In. split; [|tauto]. intros _ ->.
      apply mem_false in Hno. contradiction. }
  destruct (mem ".git" (dir_names es)) eqn:Eg.
  - assert (Hsplit : forall acc,
               In p (each_dir (fun x c s' => os_walk (visit fs) (top // x) c s')
                       (fun x => mem x (filter (fun d => negb (d =? ".git")) (dir_names es)))
                       es acc)
               <-> In p acc \/
                   exists x es', In (x, Dir es') es /\ x <> ".git"
                        /\ In p (os_walk (visit fs) (top // x) (Dir es') [])).
    { intros acc. rewrite each_dir_app by exact Hall. rewrite in_app_iff.
      rewrite each_dir_In by exact Hall. split.
      - intros [Ha | (x & c & Hin & Hd & Hk & Hp)]; [now left|]. right.
        destruct c as [|es']; [discriminate|]. exists x, es'. repeat split; auto.
        exact (proj1 (Hkeep x es' _ Hin (or_introl (conj eq_refl eq_refl))) Hk).
      - intros [Ha | (x & es' & Hin & Hx & Hp)]; [now left|]. right.
        exists x, (Dir es'). repeat split; auto.
        exact (proj2 (Hkeep x es' _ Hin (or_introl (conj eq_refl eq_refl))) Hx). }
    destruct (is_git_repo fs top).
    + rewrite Hsplit. simpl. split.
      * intros [[<- | []] | H]; [left; auto | now right].
      * intros [(-> & _ & _) | H]; [left; now left | now right].
    + rewrite Hsplit. simpl. split.
      * intros [[] | H]. now right.
      * intros [(_ & _ & H) | H]; [discriminate | now right].
  - rewrite each_dir_In by exact Hall. split.
    + intros (x & c & Hin & Hd & Hk & Hp). right.
      destruct c as [|es']; [discriminate|]. exists x, es'. repeat split; auto.
      exact (proj1 (Hkeep x es' _ Hin (or_intror (conj eq_refl eq_refl))) Hk).
    + intros [(_ & H & _) | (x & es' & Hin & Hx & Hp)]; [discriminate|].
      exists x, (Dir es'). repeat split; auto.
      exact (proj2 (Hkeep x es' _ Hin (or_intror (conj eq_refl eq_refl))) Hx).
Qed.

End Walk.

(** ** What the walk returns *)

Section Discovery.

Variable fs : filesystem.

(** Each path found lies below the top of the walk, through subdirectories
    none of which is named [.git], and has a subdirectory [.git]. *)
Lemma os_walk_sound (n : node) :
  forall top p,
    wf_node n = true ->
    stat fs top = Some n ->
    In p (os_walk (visit fs) top n []) ->
    exists xs, p = descend top xs /\ ~ In ".git" xs /\ ~ In ".." xs
               /\ is_dir fs (p // ".git") = true.
Proof.
  induction n as [|es IH] using node_induction; intros top p Hwf Hst Hin.
  - contradiction.
  - apply wf_dir in Hwf as (Hnd & Hval & Hsub).
    apply os_walk_In in Hin as [(-> & Hg & _) | (x & es' & Hx & Hne & Hp)].
    + exists []. rewrite descend_nil. repeat split; auto.
      apply mem_In, dir_names_In in Hg as [g Hg].
      unfold is_dir. rewrite stat_child, Hst by discriminate.
      now rewrite (assoc_nodup _ _ _ Hnd Hg).
    + assert (Hvx : valid_name x = true).
      { rewrite forallb_forall in Hval. apply Hval.
        change x with (fst (x, Dir es')). now apply in_map. }
      rewrite Forall_forall in IH.
      destruct (IH _ Hx (top // x) p) as (xs & -> & Hg & Hd & Hdir).
      * now apply (Hsub x).
      * rewrite stat_child, Hst by now apply valid_name_not_dotdot.
        now apply assoc_nodup.
      * exact Hp.
      * exists (x :: xs). rewrite descend_cons. repeat split; auto.
        -- intros [E | E]; [now apply Hne | now apply Hg].
        -- intros [E | E]; [now apply (valid_name_not_dotdot _ Hvx) | now apply Hd].
Qed.

(** Every directory with a subdirectory [.git] that lies below the top of
    the walk, through subdirectories not named [.git], is found: whether a
    directory above it was found plays no part. *)
Lemma os_walk_complete (xs : list string) :
  forall top n,
    stat fs top = Some n ->
    ~ In ".git" xs -> ~ In ".." xs ->
    is_dir fs (descend top xs // ".git") = true ->
    In (descend top xs) (os_walk (visit fs) top n []).
Proof.
  induction xs as [|x r IH]; intros top n Hst Hg Hd Hdir.
  - rewrite descend_nil in *.
    assert (Hgit : is_git_repo fs top = true).
    { unfold is_git_repo, exists_. unfold is_dir in Hdir.
      now destruct (stat fs (top // ".git")). }
    unfold is_dir in Hdir. rewrite stat_child, Hst in Hdir by discriminate.
    destruct n as [|es]; [discriminate|].
    destruct (assoc ".git" es) as [[|g]|] eqn:Ea; try discriminate.
    apply os_walk_In. left. repeat split; auto.
    apply mem_In, dir_names_In. exists g. now apply assoc_In.
  - rewrite descend_cons in *.
    assert (Hx : x <> "..") by (intros ->; apply Hd; now left).
    assert (Hsub : is_dir fs (top // x) = true).
    { apply (stat_descend_dir fs (top // x) (r ++ [".git"])).
      - intros H. apply in_app_or in H as [H | [H | []]]; [|discriminate].
        apply Hd. now right.
      - now destruct r.
      - rewrite descend_snoc. unfold exists_. unfold is_dir in Hdir.
        now destruct (stat fs (descend (top // x) r // ".git")). }
    unfold is_dir in Hsub. destruct (stat fs (top // x)) as [[|es']|] eqn:Ex;
      try discriminate.
    pose proof Ex as Ex'. rewrite stat_child, Hst in Ex' by exact Hx.
    destruct n as [|es]; [discriminate|].
    apply os_walk_In. right. exists x, es'. repeat split.
    + now apply assoc_In.
    + intros ->. apply Hg. now left.
    + apply IH; auto.
      * intros H. apply Hg. now right.
      * intros H. apply Hd. now right.
Qed.

(** The result of searching a root, exactly. *)
Theorem walk_repos_spec (search_dir p : Path) :
  wf_fs fs ->
  In p (walk_repos fs search_dir) <->
  exists xs, p = descend search_dir xs /\ ~ In ".git" xs /\ ~ In ".." xs
             /\ is_dir fs (p // ".git") = true.
Proof.
  intros Hwf. unfold walk_repos. split.
  - destruct (stat fs search_dir) as [n|] eqn:Es; [|contradiction].
    apply os_walk_sound; [now apply (wf_stat fs search_dir n Hwf Es) | exact Es].
  - intros (xs & -> & Hg & Hd & Hdir).
    assert (Hsd : is_dir fs search_dir = true).
    { apply (stat_descend_dir fs search_dir (xs ++ [".git"])).
      - intros H. apply in_app_or in H as [H | [H | []]]; [now apply Hd | discriminate].
      - now destruct xs.
      - rewrite descend_snoc. unfold exists_. unfold is_dir in Hdir.
        now destruct (stat fs (descend search_dir xs // ".git")). }
    unfold is_dir in Hsd. destruct (stat fs search_dir) as [n|] eqn:Es; [|discriminate].
    now apply os_walk_complete.
Qed.

(** The second branch of [find_repositories] never returns anything: it is
    taken only when the target is not an existing directory, and then there
    is nothing below the target. *)
Lemma find_repositories_single_path_empty (t : target) :
  is_prefix_target fs t = false -> find_repositories fs t = [].
Proof.
  unfold find_repositories. intros H. rewrite H.
  unfold is_prefix_target in H. apply orb_false_elim in H as [_ H].
  assert (Hd : is_dir fs (to_path t) = false).
  { destruct (is_dir fs (to_path t)) eqn:E; [|reflexivity].
    rewrite andb_true_r in H. unfold is_dir in E. unfold exists_ in H.
    destruct (stat fs (to_path t)); [discriminate H | discriminate E]. }
  rewrite (is_git_repo_needs_dir _ _ Hd). now rewrite andb_false_r.
Qed.

End Discovery.

(** ** Discovery on the sample trees *)

Example discovery_two :
  find_repositories fs_two (OfStr "/w") = [of_string "/w/A"].
Proof. reflexivity. Qed.

Example sample_trees_wf :
  wf_fs fs_two /\ wf_fs fs_nested /\ wf_fs fs_worktree /\ wf_fs fs_pair.
Proof. repeat split; reflexivity. Qed.

(** ** Claims about discovery *)

(** C1.  The walk descends into a directory it has just classified as a
    repository: only the entry [.git] is taken out of [dirs].  On a tree
    where [/w/app] is a repository and [/w/app/vendor/lib] is a repository
    below it, discovery from [/w] returns both, the nested one after its
    ancestor, for the target as a string and as the [Path] that [main]
    passes. *)
Theorem find_repositories_reports_nested_repository :
  find_repositories fs_nested (OfStr "/w")
    = [of_string "/w/app"; of_string "/w/app/vendor/lib"]
  /\ find_repositories fs_nested (OfPath (of_string "/w"))
    = [of_string "/w/app"; of_string "/w/app/vendor/lib"]
  /\ is_proper_ancestor (of_string "/w/app") (of_string "/w/app/vendor/lib") = true
  /\ visit fs_nested (of_string "/w/app") [".git"; "vendor"] [] []
    = ([of_string "/w/app"], ["vendor"]).
Proof. repeat split; reflexivity. Qed.

(** C7, as stated, fails: a target that does not exist and does not end in a
    slash is not searched for from its parent directory; nothing is
    returned. *)
Lemma parent_fallback_needs_trailing_slash :
  ~ (forall fs t, exists_ fs (to_path t) = false ->
                  find_repositories fs t = walk_repos fs (parent (to_path t))).
Proof.
  intros H. specialize (H fs_two (OfStr "/w/nope") eq_refl). discriminate H.
Qed.

(** C7, amended.  For a target that is not an existing path, discovery
    searches from the target's parent directory exactly when the target
    string ends with a slash; otherwise the result is empty. *)
Theorem find_repositories_missing_target (fs : filesystem) (t : target) :
  exists_ fs (to_path t) = false ->
  find_repositories fs t =
  if PyStr.endswith (str t) "/" then walk_repos fs (parent (to_path t)) else [].
Proof.
  intros Hex. unfold find_repositories, is_prefix_target. rewrite Hex. simpl.
  rewrite orb_false_r. reflexivity.
Qed.

Lemma find_repositories_missing_target_witness :
  find_repositories fs_two (OfStr "/w/nope/") = [of_string "/w/A"]
  /\ find_repositories fs_two (OfStr "/w/nope") = [].
Proof.
  split.
  - exact (find_repositories_missing_target fs_two (OfStr "/w/nope/") eq_refl).
  - exact (find_repositories_missing_target fs_two (OfStr "/w/nope") eq_refl).
Defined.

(** C10, as stated, fails: a target given directly, which exists and has a
    [.git] entry that is a file, is not classified.  Being an existing
    directory it is searched as a root, and there only a [.git] directory
    counts. *)
Lemma single_path_git_file_not_classified :
  ~ (forall fs t, exists_ fs (to_path t) = true ->
                  exists_ fs (to_path t // ".git") = true ->
                  In (to_path t) (find_repositories fs t)).
Proof.
  intros H. exact (H fs_worktree (OfStr "/w/wt") eq_refl eq_refl).
Qed.

(** C10, amended.  Every path that discovery returns has a [.git] entry that
    is a directory, whatever the form of the target; the branch for a single
    repository path, whose test [is_git_repo] accepts any existing [.git]
    entry, is taken only for targets that are not existing directories and
    returns nothing. *)
Theorem discovery_requires_git_directory (fs : filesystem) (t : target) :
  wf_fs fs ->
  (forall p, In p (find_repositories fs t) -> is_dir fs (p // ".git") = true)
  /\ (is_prefix_target fs t = false -> find_repositories fs t = [])
  /\ (forall p, is_file fs (p // ".git") = true -> is_git_repo fs p = true).
Proof.
  intros Hwf. split; [|split].
  - intros p Hp. destruct (is_prefix_target fs t) eqn:E.
    + unfold find_repositories in Hp. rewrite E in Hp.
      apply (walk_repos_spec fs _ p Hwf) in Hp as (_ & _ & _ & _ & H). exact H.
    + rewrite (find_repositories_single_path_empty fs t E) in Hp. contradiction.
  - apply find_repositories_single_path_empty.
  - intros p Hp. unfold is_git_repo, exists_. unfold is_file in Hp.
    now destruct (stat fs (p // ".git")).
Qed.

Lemma discovery_requires_git_directory_witness :
  Forall (fun p => is_dir fs_worktree (p // ".git") = true)
         (find_repositories fs_worktree (OfStr "/w"))
  /\ find_repositories fs_worktree (OfStr "/w/wt/main.c") = []
  /\ is_git_repo fs_worktree (of_string "/w/wt") = true.
Proof.
  split; [|split].
  - apply Forall_forall.
    exact (proj1 (discovery_requires_git_directory fs_worktree (OfStr "/w") eq_refl)).
  - exact (proj1 (proj2 (discovery_requires_git_directory
                           fs_worktree (OfStr "/w/wt/main.c") eq_refl)) eq_refl).
  - exact (proj2 (proj2 (discovery_requires_git_directory fs_worktree (OfStr "/w") eq_refl))
             (of_string "/w/wt") eq_refl).
Defined.

Example path_target_loses_trailing_slash :
  str (OfPath (of_string "/w/nope/")) = "/w/nope"
  /\ find_repositories fs_two (OfPath (of_string "/w/nope/")) = [].
Proof. split; reflexivity. Qed.

(** ** More on discovery *)

Section DiscoveryFacts.

Variable fs : filesystem.

(** X1.  For a target that is a directory, what [find_repositories]
    returns, exactly: the directories below the target, reached through
    subdirectories none of which is named [.git], that have a subdirectory
    [.git]. *)
Theorem find_repositories_of_directory (t : target) (p : Path) :
  wf_fs fs -> is_dir fs (to_path t) = true ->
  In p (find_repositories fs t) <->
  exists xs, p = descend (to_path t) xs /\ ~ In ".git" xs /\ ~ In ".." xs
             /\ is_dir fs (p // ".git") = true.
Proof.
  intros Hwf Hd.
  assert (Hex : exists_ fs (to_path t) = true).
  { unfold exists_. unfold is_dir in Hd. now destruct (stat fs (to_path t)). }
  unfold find_repositories, is_prefix_target. rewrite Hex, Hd. cbn [andb].
  rewrite orb_true_r. now apply walk_repos_spec.
Qed.

End DiscoveryFacts.

Lemma path_eqb_eq (p q : Path) : Pathlib.eqb p q = true -> p = q.
Proof.
  destruct p as [a l], q as [b m]. unfold Pathlib.eqb. simpl.
  intros H. apply andb_prop in H as [Ha Hl]. apply Bool.eqb_prop in Ha.
  destruct (list_eq_dec string_dec l m); [now subst | discriminate].
Qed.

Lemma concerns_create (d d' : Path) :
  concerns d (gh_repo_create ("migration25-" ++ name d') "") = true ->
  target_name d' = target_name d.
Proof.
  unfold concerns, gh_repo_create, mem, target_name. simpl.
  rewrite !orb_false_r. intros H. apply String.eqb_eq in H. now rewrite H.
Qed.

Lemma concerns_cwd (d d' : Path) (a : list string) :
  concerns d (mkCmd a (Some d')) = true -> target_name d' = target_name d.
Proof. unfold concerns. simpl. intros H. apply path_eqb_eq in H. now subst. Qed.

Section WorkflowProperties.

Variable World : Type.
Variable world_fs : World -> filesystem.
Variable run : command -> World -> completed * World.
Variable str_error : command -> completed -> string.

Local Abbreviation state := (state World).
Local Abbreviation get_current_remote := (get_current_remote run).
Local Abbreviation repo_exists := (repo_exists run).
Local Abbreviation create_github_repo := (create_github_repo run str_error).
Local Abbreviation update_remote := (update_remote run str_error).
Local Abbreviation process_repository := (process_repository world_fs run str_error).
Local Abbreviation list_repository := (list_repository world_fs run).
Local Abbreviation list_repositories := (list_repositories world_fs run).
Local Abbreviation migrate_all := (migrate_all world_fs run str_error).
Local Abbreviation main := (main world_fs run str_error).
Local Abbreviation subprocess_run := (subprocess_run run).

Local Arguments append : simpl never.

Lemma since_app (st st' : state) (seg : list (command * completed)) :
  trace st' = trace st ++ seg -> since st st' = seg.
Proof.
  unfold since. intros ->. rewrite skipn_app, skipn_all, Nat.sub_diag. reflexivity.
Qed.

Lemma quiet_filter (seg : list (command * completed)) :
  quiet seg -> filter mutating (map fst seg) = [].
Proof.
  induction 1 as [|[c r] l Hc Hl IH]; simpl; [reflexivity|].
  simpl in Hc. now rewrite Hc.
Qed.

(** *** Composition of traces *)

Section Traces.

Variable P : list (command * completed) -> Prop.
Hypothesis P_nil : P [].
Hypothesis P_app : forall a b, P a -> P b -> P (a ++ b).

Lemma traces_ret (A : Type) (a : A) : traces P (ret (World := World) a).
Proof. intros st. exists []. simpl. now rewrite app_nil_r. Qed.

Lemma traces_print (line : string) : traces P (print (World := World) line).
Proof. intros st. exists []. simpl. now rewrite app_nil_r. Qed.

Lemma traces_read_fs : traces P (read_fs world_fs).
Proof. intros st. exists []. simpl. now rewrite app_nil_r. Qed.

Lemma traces_bind (A B : Type) (m : M World A) (k : A -> M World B) :
  traces P m -> (forall a, traces P (k a)) -> traces P (bind m k).
Proof.
  intros Hm Hk st. unfold bind. destruct (Hm st) as (s1 & E1 & P1).
  destruct (m st) as [a st1]. destruct (Hk a st1) as (s2 & E2 & P2).
  exists (s1 ++ s2). simpl in *. rewrite E2, E1, app_assoc. auto.
Qed.

Lemma traces_run (c : command) :
  (forall r, P [(c, r)]) -> traces P (subprocess_run c).
Proof.
  intros Hc st. unfold Workflow.subprocess_run.
  destruct (run c (world st)) as [r w]. exists [(c, r)]. simpl. auto.
Qed.

Lemma traces_for_each (body : Path -> M World unit) (l : list Path) :
  (forall x, In x l -> traces P (body x)) -> traces P (for_each body l).
Proof.
  induction l as [|x r IH]; intros Hb; simpl.
  - apply traces_ret.
  - apply traces_bind.
    + apply Hb. now left.
    + intros _. apply IH. intros y Hy. apply Hb. now right.
Qed.

End Traces.

Lemma traces_weaken (P Q : list (command * completed) -> Prop) (A : Type) (m : M World A) :
  (forall seg, P seg -> Q seg) -> traces P m -> traces Q m.
Proof.
  intros HPQ Hm st. destruct (Hm st) as (seg & E & H). exists seg. auto.
Qed.

Lemma quiet_nil : quiet [].
Proof. constructor. Qed.

Lemma quiet_app (a b : list (command * completed)) : quiet a -> quiet b -> quiet (a ++ b).
Proof. unfold quiet. intros. now apply Forall_app. Qed.

Lemma quiet_one (c : command) (r : completed) : mutating c = false -> quiet [(c, r)].
Proof. intros H. repeat constructor. exact H. Qed.

Ltac compose_quiet :=
  repeat first
    [ apply (traces_ret quiet quiet_nil)
    | apply (traces_print quiet quiet_nil)
    | apply (traces_read_fs quiet quiet_nil)
    | apply (traces_run quiet); intros; apply quiet_one; reflexivity
    | apply (traces_bind quiet quiet_app); [|intros]
    | match goal with |- traces _ (if ?b then _ else _) => destruct b end ].

Lemma get_current_remote_quiet (path : Path) : traces quiet (get_current_remote path).
Proof. unfold Workflow.get_current_remote. compose_quiet. Qed.

Lemma repo_exists_quiet (name : string) : traces quiet (repo_exists name).
Proof. unfold Workflow.repo_exists. compose_quiet. Qed.

(** The inventory only looks: it makes no call that changes anything. *)
Lemma list_repositories_quiet (repos : list Path) : traces quiet (list_repositories repos).
Proof.
  unfold Workflow.list_repositories. compose_quiet.
  apply (traces_for_each quiet quiet_nil quiet_app). intros repo _.
  unfold Workflow.list_repository.
  apply (traces_bind quiet quiet_app); [compose_quiet | intros fs].
  destruct (is_git_repo fs repo); [|compose_quiet].
  apply (traces_bind quiet quiet_app); [apply get_current_remote_quiet | intros remote].
  apply (traces_bind quiet quiet_app); [apply repo_exists_quiet | intros e].
  compose_quiet.
Qed.

(** *** The single operations *)

Ltac exec_step :=
  match goal with
  | |- context [run ?c ?w] =>
      let r := fresh "r" in
      let w' := fresh "w" in
      let E := fresh "E" in
      destruct (run c w) as [r w'] eqn:E; simpl
  | |- context [if succeeded ?r then _ else _] =>
      let S := fresh "S" in destruct (succeeded r) eqn:S; simpl
  | |- context [is_git_repo ?f ?d] =>
      let G := fresh "G" in destruct (is_git_repo f d) eqn:G; simpl
  | |- context [if ?b then _ else _] =>
      let T := fresh "T" in destruct b eqn:T; simpl
  end.

(** Runs the operations of the goal, one case for each way the calls can
    turn out. *)
Ltac exec_ops :=
  unfold Workflow.update_remote, Workflow.create_github_repo, Workflow.repo_exists,
    Workflow.get_current_remote, Workflow.subprocess_run, bind, ret, print;
  simpl; repeat exec_step.

Ltac exec_all := unfold Workflow.process_repository, read_fs; exec_ops.

Lemma succeeded_spec (r : completed) : succeeded r = true <-> returncode r = 0%Z.
Proof. unfold succeeded. apply Z.eqb_eq. Qed.



(** C4.  When repointing the remote fails, [update_remote] makes no further
    call, so no push, prints the failure, and returns [False]. *)
Theorem update_remote_stops_when_set_url_fails
    (path : Path) (new_remote_url : string) (st : state) :
  let c := git_remote_set_url path new_remote_url in
  let r := fst (run c (world st)) in
  let st' := snd (update_remote path new_remote_url st) in
  returncode r <> 0%Z ->
  fst (update_remote path new_remote_url st) = false
  /\ since st st' = [(c, r)]
  /\ filter is_push (map fst (since st st')) = []
  /\ out st' = out st ++ [("✗ Failed to update/push to remote for " ++ to_string path
                           ++ ": " ++ str_error c r)%string].
Proof using run str_error.
  clear world_fs. exec_ops; intros H; try (apply succeeded_spec in S; contradiction).
  rewrite (since_app st _ [(git_remote_set_url path new_remote_url, r)]) by reflexivity.
  repeat split; reflexivity.
Qed.

(** *** One repository *)

Lemma skipn_length_app (A : Type) (l seg : list A) : skipn (List.length l) (l ++ seg) = seg.
Proof. rewrite skipn_app, skipn_all, Nat.sub_diag. reflexivity. Qed.

Lemma last_app_cons (A : Type) (l r : list A) (x d : A) :
  last (l ++ x :: r) d = last (x :: r) d.
Proof.
  induction l as [|y l IH]; [reflexivity|].
  simpl app. rewrite <- IH. simpl. now destruct (l ++ x :: r) eqn:E; [destruct l|].
Qed.

Ltac since_norm :=
  unfold since in *; simpl in *; rewrite <- ?app_assoc in *;
  rewrite ?skipn_length_app, ?skipn_all in *; simpl in *.

(** C5.  For a repository whose remote lookup gives nothing (the command
    fails, or prints nothing), [process_repository] makes the lookup and no
    other call, so neither the creation nor the update and push; it
    prints that no remote was found and returns [False]. *)
Theorem process_repository_without_remote (directory : Path) (st : state) :
  let res := process_repository directory st in
  is_git_repo (world_fs (world st)) directory = true ->
  PyStr.truthy (fst (get_current_remote directory st)) = false ->
  fst res = false
  /\ map fst (since st (snd res)) = [git_remote_get_url directory]
  /\ filter mutating (map fst (since st (snd res))) = []
  /\ out (snd res) =
     out st ++ [(nl ++ "Processing " ++ to_string directory ++ "...")%string;
                ("✗ No remote found for " ++ to_string directory)%string].
Proof.
  exec_all; intros H1 H2; try discriminate; try congruence;
    since_norm; repeat split; reflexivity.
Qed.

(** The loop of [main] goes on to the next repository whatever the result
    for the current one. *)
Lemma migrate_all_cons (directory : Path) (rest : list Path) (st : state) :
  migrate_all (directory :: rest) st
  = migrate_all rest (snd (process_repository directory st)).
Proof.
  unfold Workflow.migrate_all. simpl. unfold bind at 1 2.
  now destruct (process_repository directory st).
Qed.

(** C6.  When the creation call for a repository fails, no call repoints
    its remote and none pushes, the repository is given up with a message
    and the result [False], and the loop goes on with the remaining
    repositories. *)
Theorem creation_failure_aborts_repository
    (directory : Path) (rest : list Path) (st : state) :
  let res := process_repository directory st in
  let c := gh_repo_create ("migration25-" ++ name directory) "" in
  (exists r, In (c, r) (since st (snd res)) /\ returncode r <> 0%Z) ->
  fst res = false
  /\ filter (fun c => is_set_url c || is_push c) (map fst (since st (snd res))) = []
  /\ last (out (snd res)) "" = "✗ Skipping remote update due to repository creation failure"
  /\ migrate_all (directory :: rest) st = migrate_all rest (snd res).
Proof.
  intros res c H. split; [|split; [|split]]; [| | |apply migrate_all_cons].
  all: subst res c; revert H; exec_all; intros (r' & Hin & Hr); since_norm;
    repeat match goal with
      | H : _ \/ _ |- _ => destruct H
      | H : False |- _ => destruct H
      | H : (_, _) = (_, _) |- _ => inversion H; clear H; subst
      end;
    try (exfalso; apply Hr; now apply succeeded_spec);
    try reflexivity.
  all: rewrite last_app_cons; reflexivity.
Qed.

(** *** The whole run *)

Section RunTraces.

Variable P : list (command * completed) -> Prop.
Hypothesis P_nil : P [].
Hypothesis P_app : forall a b, P a -> P b -> P (a ++ b).
Hypothesis P_quiet : forall seg, quiet seg -> P seg.
Hypothesis P_process : forall d, traces P (process_repository d).

Ltac compose :=
  repeat first
    [ apply (traces_ret P P_nil)
    | apply (traces_print P P_nil)
    | apply (traces_read_fs P P_nil)
    | apply (traces_bind P P_app); [|intros] ].

Lemma traces_migrate_all (repositories : list Path) : traces P (migrate_all repositories).
Proof.
  unfold Workflow.migrate_all. apply (traces_for_each P P_nil P_app).
  intros d _. apply (traces_bind P P_app); [apply P_process | intros _; compose].
Qed.

(** What holds of the inventory and of each repository's processing holds
    of the run. *)
Lemma traces_main (args : list string) (stdin : option string) :
  traces P (main args stdin).
Proof.
  unfold Workflow.main. destruct (negb (List.length args =? 2)%nat); [compose|].
  apply (traces_bind P P_app); [compose | intros fs].
  destruct (find_repositories fs (OfPath (of_string (nth 1 args "")))) as [|d l];
    [compose|].
  apply (traces_bind P P_app).
  - apply (traces_weaken quiet); [exact P_quiet | apply list_repositories_quiet].
  - intros _. apply (traces_bind P P_app); [compose | intros _].
    destruct stdin as [response|]; [|compose].
    destruct (negb (PyStr.lower response =? "yes")); [compose|].
    apply (traces_bind P P_app); [apply traces_migrate_all | intros; compose].
Qed.

End RunTraces.

Lemma skipped_if_existing_app (d : Path) (a b : list (command * completed)) :
  skipped_if_existing d a -> skipped_if_existing d b -> skipped_if_existing d (a ++ b).
Proof.
  intros Ha Hb Hall. apply Forall_app. split; [apply Ha | apply Hb];
    intros r Hin; apply Hall; apply in_or_app; auto.
Qed.

Lemma quiet_untouched (d : Path) (seg : list (command * completed)) :
  quiet seg -> untouched d seg.
Proof. unfold quiet, untouched. apply Forall_impl. auto. Qed.

(** Processing one repository leaves alone every repository whose target
    name it finds to exist. *)
Lemma process_repository_skips_existing (d d' : Path) :
  traces (skipped_if_existing d) (process_repository d').
Proof.
  intros st. exec_all; eexists;
    (split; [rewrite <- ?app_assoc; first [reflexivity | symmetry; apply app_nil_r]|]);
    intros Hall; unfold untouched; cbn [app];
    repeat match goal with
      | |- Forall _ [] => constructor
      | |- Forall _ (_ :: _) => constructor; [simpl fst; intros Hc|]
      end;
    try reflexivity;
    exfalso;
    first [apply concerns_create in Hc | apply concerns_cwd in Hc];
    unfold target_name in Hc;
    match goal with
    | S : succeeded ?r = false |- _ =>
        assert (succeeded r = true)
          by (apply Hall; unfold target_name; rewrite <- Hc; simpl; auto 10);
        congruence
    end.
Qed.

(** C3.  A repository whose target name exists on the hosting provider is
    skipped: in a run in which every lookup of the target name of [d]
    answers that it exists, as in a second run after [d] was migrated, no
    call creates that hosted repository, and none repoints the remote of
    [d] or pushes from it. *)
Theorem existing_target_is_skipped
    (args : list string) (stdin : option string) (st : state) (d : Path) :
  let st' := snd (main args stdin st) in
  (forall r, In (gh_repo_view (target_name d), r) (since st st') -> succeeded r = true) ->
  forall c, In c (map fst (since st st')) -> concerns d c = true -> mutating c = false.
Proof.
  intros st' Hall c Hin Hc. subst st'.
  destruct (traces_main (skipped_if_existing d) (fun _ => Forall_nil _)
              (skipped_if_existing_app d) (fun seg H _ => quiet_untouched d seg H)
              (process_repository_skips_existing d) args stdin st) as (seg & E & H).
  rewrite (since_app _ _ _ E) in *. specialize (H Hall).
  unfold untouched in H. rewrite Forall_forall in H.
  apply in_map_iff in Hin as ([c' r] & <- & Hin). now apply (H _ Hin).
Qed.

(** Before the loop over the repositories, and when the answer is not an
    accepted one, a run makes no call that changes anything. *)
Lemma main_declined_quiet (args : list string) (response : string) :
  PyStr.lower response <> "yes" -> traces quiet (main args (Some response)).
Proof.
  intros Hno. apply String.eqb_neq in Hno.
  unfold Workflow.main. rewrite Hno. simpl negb. cbv iota.
  destruct (negb (List.length args =? 2)%nat); [compose_quiet|].
  apply (traces_bind quiet quiet_app); [compose_quiet | intros fs].
  destruct (find_repositories fs (OfPath (of_string (nth 1 args "")))) as [|d l].
  - compose_quiet.
  - apply (traces_bind quiet quiet_app); [apply list_repositories_quiet | intros _].
    compose_quiet.
Qed.

(** C2, amended.  For every answer whose lower-case form is not [yes], the
    run makes no call that creates, repoints or pushes; and when the prompt
    is reached (one argument, something discovered) the run prints that the
    migration is cancelled and exits with code 0. *)
Theorem main_declined (args : list string) (response : string) (st : state) :
  let res := main args (Some response) st in
  PyStr.lower response <> "yes" ->
  filter mutating (map fst (since st (snd res))) = []
  /\ (List.length args = 2%nat ->
      find_repositories (world_fs (world st)) (OfPath (of_string (nth 1 args ""))) <> [] ->
      fst res = Exit 0 /\ last (out (snd res)) "" = "Migration cancelled.").
Proof.
  intros res Hno. split.
  - destruct (main_declined_quiet args response Hno st) as (seg & E & H).
    subst res. rewrite (since_app _ _ _ E). now apply quiet_filter.
  - intros Hlen Hfound. subst res. apply String.eqb_neq in Hno.
    unfold Workflow.main. rewrite Hlen. simpl (negb _). cbv iota.
    unfold bind, read_fs, print, ret. cbv beta iota zeta.
    destruct (find_repositories (world_fs (world st))
                (OfPath (of_string (nth 1 args "")))) as [|d l]; [congruence|].
    destruct (list_repositories (d :: l) st) as [u st1].
    rewrite Hno. simpl. split; [reflexivity|]. now rewrite last_last.
Qed.

(** *** More on the single operations *)

Ltac pair_eqs :=
  repeat match goal with
    | H : (_, _) = (_, _) |- _ => inversion H; clear H; subst
    end.

(** X2.  When the remote was repointed and the push fails, [update_remote]
    returns [False] after these two calls and makes no third one: the
    remote stays repointed. *)
Theorem update_remote_push_failure
    (path : Path) (new_remote_url : string) (st : state) :
  let c1 := git_remote_set_url path new_remote_url in
  let c2 := git_push_all path in
  let r1 := fst (run c1 (world st)) in
  let w1 := snd (run c1 (world st)) in
  let r2 := fst (run c2 w1) in
  let res := update_remote path new_remote_url st in
  returncode r1 = 0%Z -> returncode r2 <> 0%Z ->
  fst res = false
  /\ since st (snd res) = [(c1, r1); (c2, r2)]
  /\ world (snd res) = snd (run c2 w1)
  /\ last (out (snd res)) "" =
     ("✗ Failed to update/push to remote for " ++ to_string path ++ ": "
      ++ str_error c2 r2)%string.
Proof using run str_error.
  clear world_fs. exec_ops; intros H1 H2; pair_eqs;
    try (apply succeeded_spec in S0; contradiction);
    try (exfalso; apply succeeded_spec in H1; congruence).
  since_norm. rewrite last_app_cons. repeat split; reflexivity.
Qed.

(** X3.  A directory without [.git] is not processed: no call is made, the
    diagnostic is printed, the result is [False]. *)
Theorem process_repository_not_a_repo (directory : Path) (st : state) :
  let res := process_repository directory st in
  is_git_repo (world_fs (world st)) directory = false ->
  fst res = false
  /\ since st (snd res) = []
  /\ out (snd res) =
     out st ++ [(nl ++ "Processing " ++ to_string directory ++ "...")%string;
                ("✗ " ++ to_string directory ++ " is not a git repository")%string].
Proof.
  exec_all; intros H; try discriminate. since_norm. repeat split; reflexivity.
Qed.

(** X4.  When the creation succeeds but prints nothing (or only white
    space), the repository is treated as if the creation had failed: the
    remote is not repointed, nothing is pushed, the result is [False]. *)
Theorem process_repository_blank_url (directory : Path) (st : state) :
  let res := process_repository directory st in
  let c := gh_repo_create (target_name directory) "" in
  (exists r, In (c, r) (since st (snd res)) /\ returncode r = 0%Z
             /\ PyStr.strip (stdout r) = "") ->
  fst res = false
  /\ filter (fun c => is_set_url c || is_push c) (map fst (since st (snd res))) = []
  /\ last (out (snd res)) "" = "✗ Skipping remote update due to repository creation failure".
Proof.
  intros res c H. subst res c. unfold target_name in H. revert H.
  exec_all; intros (r' & Hin & Hr & Hs); since_norm;
    repeat match goal with
      | H : _ \/ _ |- _ => destruct H
      | H : False |- _ => destruct H
      | H : (_, _) = (_, _) |- _ => inversion H; clear H; subst
      end;
    try (apply succeeded_spec in Hr; congruence);
    try (rewrite Hs in *; discriminate).
  all: rewrite last_app_cons; repeat split; reflexivity.
Qed.

(** X5.  [process_repository] returns [True] exactly when its last call
    succeeded and was the existence check (the repository is skipped) or
    the push (the repository is migrated). *)
Theorem process_repository_true_iff (directory : Path) (st : state) :
  let res := process_repository directory st in
  fst res = true <->
  exists seg c r, since st (snd res) = seg ++ [(c, r)] /\ succeeded r = true
                  /\ (is_view c = true \/ is_push c = true).
Proof.
  exec_all; since_norm; split;
    try discriminate;
    try (intros _;
         first [ now eexists [], _, _; repeat split; eauto
               | now eexists [_], _, _; repeat split; eauto
               | now eexists [_; _; _; _], _, _; repeat split; eauto ]);
    try reflexivity;
    intros (seg & c & r' & Eseg & Sr & V);
    try (destruct seg; discriminate Eseg);
    apply (f_equal (fun l => last l (c, r'))) in Eseg; rewrite last_last in Eseg;
    cbn [last] in Eseg; inversion Eseg; subst;
    try congruence; destruct V; discriminate.
Qed.

(** *** More on the whole run *)


(** When the input is exhausted at the prompt, nothing has been changed. *)
Lemma main_eof_quiet (args : list string) : traces quiet (main args None).
Proof.
  unfold Workflow.main.
  destruct (negb (List.length args =? 2)%nat); [compose_quiet|].
  apply (traces_bind quiet quiet_app); [compose_quiet | intros fs].
  destruct (find_repositories fs (OfPath (of_string (nth 1 args "")))) as [|d l].
  - compose_quiet.
  - apply (traces_bind quiet quiet_app); [apply list_repositories_quiet | intros _].
    compose_quiet.
Qed.

(** X7.  Nothing is created, repointed or pushed unless an answer was read
    whose lower-case form is [yes]. *)
Theorem main_changes_only_after_yes
    (args : list string) (stdin : option string) (st : state) :
  filter mutating (map fst (since st (snd (main args stdin st)))) <> [] ->
  exists response, stdin = Some response /\ PyStr.lower response = "yes".
Proof.
  intros H. destruct stdin as [response|].
  - exists response. split; [reflexivity|].
    destruct (string_dec (PyStr.lower response) "yes") as [E|E]; [exact E|].
    exfalso. apply H.
    destruct (main_declined_quiet args response E st) as (seg & Es & Hq).
    rewrite (since_app _ _ _ Es). now apply quiet_filter.
  - exfalso. apply H. destruct (main_eof_quiet args st) as (seg & Es & Hq).
    rewrite (since_app _ _ _ Es). now apply quiet_filter.
Qed.

End WorkflowProperties.

(* ================================================================== *)
(** ** The workflow in the simulated world *)

(** A second run, in the world the first run left, changes nothing. *)
Example second_run_skips :
  let w1 := world (snd (sim_main prog_args (Some "yes") world_fresh)) in
  let res := sim_main prog_args (Some "yes") w1 in
  fst res = Exit 0 /\ side_effects (snd res) = [] /\ world (snd res) = w1.
Proof. vm_compute. repeat split; reflexivity. Qed.

(** Scenario 4: the creation is rejected; the remote of [/w/A] keeps its
    value, and [/w/C] is migrated all the same. *)
Example rejected_creation_keeps_remote :
  let res := sim_main prog_args (Some "yes") world_rejecting in
  fst res = Exit 0
  /\ Sim.remote_of repo_A (Sim.remotes (world (snd res))) = Some "git@old:foo/A.git"
  /\ Sim.remote_of repo_C (Sim.remotes (world (snd res)))
     = Some "https://github.com/me/migration25-C".
Proof. vm_compute. repeat split; reflexivity. Qed.

(** C2, as stated, fails: the answer [YES] is not the token [yes], and the
    migration goes ahead. *)
Lemma uppercase_yes_is_accepted :
  ~ (forall response,
       response <> "yes" ->
       side_effects (snd (sim_main prog_args (Some response) world_fresh)) = []
       /\ fst (sim_main prog_args (Some response) world_fresh) = Exit 0).
Proof.
  intros H. destruct (H "YES") as [Hs _]; [discriminate|].
  vm_compute in Hs. discriminate Hs.
Qed.

Lemma main_declined_witness :
  let res := sim_main prog_args (Some "no") world_fresh in
  filter mutating (map fst (since (init world_fresh) (snd res))) = []
  /\ fst res = Exit 0
  /\ last (out (snd res)) "" = "Migration cancelled.".
Proof.
  assert (Hno : PyStr.lower "no" <> "yes") by discriminate.
  pose proof (main_declined Sim.world Sim.files Sim.exec Sim.error_text
                prog_args "no" (init world_fresh) Hno) as [H1 H2].
  split; [exact H1|]. apply H2; [reflexivity|].
  intros H. vm_compute in H. discriminate H.
Defined.

Lemma existing_target_is_skipped_witness :
  Forall (fun c => concerns repo_A c = true -> mutating c = false)
         (map fst (since (init world_migrated)
                     (snd (sim_main prog_args (Some "yes") world_migrated)))).
Proof.
  apply Forall_forall.
  apply (existing_target_is_skipped Sim.world Sim.files Sim.exec Sim.error_text
           prog_args (Some "yes") (init world_migrated) repo_A).
  intros r H. vm_compute in H.
  repeat match goal with
    | H : _ \/ _ |- _ => destruct H
    | H : False |- _ => destruct H
    | H : (_, _) = (_, _) |- _ => inversion H; clear H; subst
    end; reflexivity.
Defined.

Lemma update_remote_stops_when_set_url_fails_witness :
  let url := "https://github.com/me/migration25-A" in
  let res := update_remote Sim.exec Sim.error_text repo_A url (init world_readonly) in
  fst res = false
  /\ since (init world_readonly) (snd res)
     = [(git_remote_set_url repo_A url, mkCompleted 1 "")]
  /\ filter is_push (map fst (since (init world_readonly) (snd res))) = [].
Proof.
  intros url res.
  assert (H : returncode (fst (Sim.exec (git_remote_set_url repo_A url) world_readonly))
              <> 0%Z) by (vm_compute; discriminate).
  destruct (update_remote_stops_when_set_url_fails Sim.world Sim.exec Sim.error_text
              repo_A url (init world_readonly) H) as (H1 & H2 & H3 & _).
  repeat split; assumption.
Defined.

Lemma process_repository_without_remote_witness :
  let res := sim_process repo_C world_fresh in
  fst res = false
  /\ map fst (since (init world_fresh) (snd res)) = [git_remote_get_url repo_C]
  /\ filter mutating (map fst (since (init world_fresh) (snd res))) = [].
Proof.
  destruct (process_repository_without_remote Sim.world Sim.files Sim.exec Sim.error_text
              repo_C (init world_fresh) eq_refl eq_refl) as (H1 & H2 & H3 & _).
  repeat split; assumption.
Defined.

Lemma creation_failure_aborts_repository_witness :
  let res := sim_process repo_A world_rejecting in
  fst res = false
  /\ filter (fun c => is_set_url c || is_push c)
            (map fst (since (init world_rejecting) (snd res))) = []
  /\ migrate_all Sim.files Sim.exec Sim.error_text [repo_A; repo_C] (init world_rejecting)
     = migrate_all Sim.files Sim.exec Sim.error_text [repo_C] (snd res).
Proof.
  destruct (creation_failure_aborts_repository Sim.world Sim.files Sim.exec Sim.error_text
              repo_A [repo_C] (init world_rejecting)) as (H1 & H2 & _ & H4).
  - exists (mkCompleted 1 ""). split; [vm_compute; tauto | discriminate].
  - repeat split; assumption.
Defined.



(* ================================================================== *)
(** ** Further properties on the sample trees and worlds *)

Lemma find_repositories_of_directory_witness :
  In (of_string "/w/app/vendor/lib") (find_repositories fs_nested (OfStr "/w"))
  /\ ~ In (of_string "/w/app/.git") (find_repositories fs_nested (OfStr "/w")).
Proof.
  assert (Hwf : wf_fs fs_nested) by reflexivity.
  assert (Hd : is_dir fs_nested (to_path (OfStr "/w")) = true) by reflexivity.
  split.
  - apply (find_repositories_of_directory fs_nested (OfStr "/w") _ Hwf Hd).
    exists ["app"; "vendor"; "lib"]. repeat split.
    + intros H. repeat (destruct H as [H | H]; [discriminate H|]). exact H.
    + intros H. repeat (destruct H as [H | H]; [discriminate H|]). exact H.
  - intros H. apply (find_repositories_of_directory fs_nested (OfStr "/w") _ Hwf Hd) in H
      as (xs & E & Hg & _).
    apply Hg. unfold descend in E. injection E as E. rewrite <- E.
    right. now left.
Defined.

Lemma update_remote_push_failure_witness :
  let url := "https://github.com/me/migration25-A" in
  let res := update_remote Sim.exec Sim.error_text repo_A url (init world_unreachable) in
  fst res = false
  /\ map fst (since (init world_unreachable) (snd res))
     = [git_remote_set_url repo_A url; git_push_all repo_A]
  /\ Sim.remote_of repo_A (Sim.remotes (world (snd res))) = Some url.
Proof.
  intros url res.
  destruct (update_remote_push_failure Sim.world Sim.exec Sim.error_text
              repo_A url (init world_unreachable)) as (H1 & H2 & H3 & _).
  - reflexivity.
  - vm_compute. discriminate.
  - split; [exact H1|]. split.
    + subst res. rewrite H2. reflexivity.
    + subst res. rewrite H3. reflexivity.
Defined.

Lemma process_repository_not_a_repo_witness :
  let res := sim_process (of_string "/w") world_fresh in
  fst res = false /\ since (init world_fresh) (snd res) = [].
Proof.
  destruct (process_repository_not_a_repo Sim.world Sim.files Sim.exec Sim.error_text
              (of_string "/w") (init world_fresh) eq_refl) as (H1 & H2 & _).
  split; assumption.
Defined.

Lemma process_repository_blank_url_witness :
  let res := process_repository (fun fs => fs) silent_run Sim.error_text repo_A
               (init fs_pair) in
  fst res = false
  /\ filter (fun c => is_set_url c || is_push c)
            (map fst (since (init fs_pair) (snd res))) = [].
Proof.
  destruct (process_repository_blank_url filesystem (fun fs => fs) silent_run
              Sim.error_text repo_A (init fs_pair)) as (H1 & H2 & _).
  - exists (mkCompleted 0 ("  " ++ nl)). split; [vm_compute; tauto | split; reflexivity].
  - split; assumption.
Defined.

Lemma main_changes_only_after_yes_witness :
  exists response, Some "Yes" = Some response /\ PyStr.lower response = "yes".
Proof.
  apply (main_changes_only_after_yes Sim.world Sim.files Sim.exec Sim.error_text
           prog_args (Some "Yes") (init world_fresh)).
  vm_compute. discriminate.
Defined.
